(** * gordonbrander/result: Result and Option combinators

    A shallow embedding of [result.ts] (the Result type, its data-first
    operations, [pipe], [perform], [intoResult]), of
    [result/combinators.ts] (the curried, data-last forms), of [zod.ts]
    ([toResult]) and of [Option.from], followed by the properties the
    specification states about them and by further properties read off
    the code.

    TypeScript's generics are erased at run time, so the operations are
    polymorphic Rocq functions; where the code looks at a value as a
    run-time JavaScript value (the thrown value bound by [catch], the
    [cause] of a [TypeError], [null] and [undefined]) the type is [JsVal].

    Callbacks are JavaScript functions: they may change the world they
    close over and they may throw.  They are modelled in [Eff W], a state
    and exception monad over an arbitrary world [W]. *)

From Stdlib Require Import String ZArith List Lia DecimalString.
Import ListNotations.
Open Scope string_scope.
Open Scope Z_scope.

(* ================================================================== *)
(** ** JavaScript values *)

(** The run-time values the library looks at.  Numbers are the
    integer-valued ones (the only ones the specification's examples use);
    [JsError name message cause] is an object made by
    [new name(message, { cause })]; [JsObj] is a plain object literal. *)
#[warnings="-register-all"] Inductive JsVal : Type :=
| JsUndefined
| JsNull
| JsBool (b : bool)
| JsNum (n : Z)
| JsStr (s : string)
| JsError (name : string) (message : string) (cause : JsVal)
| JsObj (props : list (string * JsVal)).

(** [new TypeError(message, { cause })]. *)
Definition new_TypeError (message : string) (cause : JsVal) : JsVal :=
  JsError "TypeError" message cause.

(** The [cause] property of a value: [undefined] where there is none. *)
Definition cause_of (v : JsVal) : JsVal :=
  match v with
  | JsError _ _ cause => cause
  | _ => JsUndefined
  end.

(** [x != undefined]: loose inequality holds for everything except
    [null] and [undefined]. *)
Definition loose_neq_undefined (x : JsVal) : bool :=
  match x with
  | JsUndefined | JsNull => false
  | _ => true
  end.

(** [a ?? b]: [b] when [a] is [null] or [undefined], else [a]. *)
Definition nullish_coalesce (a b : JsVal) : JsVal :=
  match a with
  | JsUndefined | JsNull => b
  | _ => a
  end.

(** Decimal rendering of an integer-valued number, as a template
    literal [`${x}`] or [String(x)] prints it. *)
Definition number_to_string (n : Z) : string :=
  NilZero.string_of_int (Z.to_int n).

(* ================================================================== *)
(** ** Effects: mutable world and exceptions *)

(** How the evaluation of an expression completes: normally with a value,
    or abruptly with a thrown value (any JavaScript value can be thrown). *)
Inductive Completion (A : Type) : Type :=
| Normal (a : A)
| Throw (thrown : JsVal).
Arguments Normal {A} a.
Arguments Throw {A} thrown.

(** A computation over a world [W]: it completes and leaves a world. *)
Definition Eff (W A : Type) : Type := W -> Completion A * W.

Definition ret {W A} (a : A) : Eff W A :=
  fun w => (Normal a, w).

Definition throw {W A} (thrown : JsVal) : Eff W A :=
  fun w => (Throw thrown, w).

Definition bind {W A B} (c : Eff W A) (k : A -> Eff W B) : Eff W B :=
  fun w =>
    match c w with
    | (Normal a, w') => k a w'
    | (Throw thrown, w') => (Throw thrown, w')
    end.

(** [try { body } catch (error) { handler }]: the world reached when the
    body threw is the one the handler starts from. *)
Definition try_catch {W A} (body : Eff W A) (handler : JsVal -> Eff W A)
  : Eff W A :=
  fun w =>
    match body w with
    | (Normal a, w') => (Normal a, w')
    | (Throw thrown, w') => handler thrown w'
    end.

Declare Scope eff_scope.
Delimit Scope eff_scope with eff.
Notation "x <- c ;; k" := (bind c (fun x => k))
  (at level 61, c at next level, right associativity) : eff_scope.
Open Scope eff_scope.

(** A callback without effects. *)
Definition pure_fn {W A B} (f : A -> B) : A -> Eff W B :=
  fun x => ret (f x).

(** A spy: behaves as [f] and counts its invocations in the world. *)
Definition spy {A B} (f : A -> B) : A -> Eff nat B :=
  fun x calls => (Normal (f x), S calls).

(** A promise, represented by the completion it settles with:
    [Normal] for fulfilled, [Throw] for rejected. *)
Inductive Promise (A : Type) : Type :=
| Settled (c : Completion A).
Arguments Settled {A} c.

(** [await p] inside an async function: the value of a fulfilled promise,
    a throw of the reason of a rejected one. *)
Definition await {W A} (p : Promise A) : Eff W A :=
  fun w => match p with Settled c => (c, w) end.

(** An [async] function body: the call itself completes normally with a
    promise, settled with the completion of the body. *)
Definition async {W A} (body : Eff W A) : Eff W (Promise A) :=
  fun w => let (c, w') := body w in (Normal (Settled c), w').

(* ================================================================== *)
(** ** option.ts *)

Module Option.

(** Modelled from the spec: [option.ts] is not among the sources (only its
    tests and the README are).  The specification says of [from]:
    "normalizes both empty representations to absent; non-empty values
    pass through unchanged"; the README: "Coalesces [null] to
    [undefined]". *)
Definition from (value : JsVal) : JsVal :=
  match value with
  | JsNull => JsUndefined
  | JsUndefined => JsUndefined
  | _ => value
  end.

End Option.

(* ================================================================== *)
(** ** result.ts *)

Module Res.

(** [type Result<T, E> = { ok: true; value: T } | { ok: false; error: E }].
    The discriminant [ok] is the constructor. *)
Inductive Result (T E : Type) : Type :=
| Ok (value : T)
| Err (error : E).
Arguments Ok {T E} value.
Arguments Err {T E} error.

Definition ok {T E} (value : T) : Result T E := Ok value.

Definition err {T E} (error : E) : Result T E := Err error.

(** [result.ok === true] *)
Definition isOk {T E} (result : Result T E) : bool :=
  match result with
  | Ok _ => true
  | Err _ => false
  end.

(** [result.ok === false] *)
Definition isErr {T E} (result : Result T E) : bool :=
  match result with
  | Ok _ => false
  | Err _ => true
  end.

Section Operations.
Context {W : Type}.

(** [if (isOk(result)) return result.value;
     throw new TypeError(`Result is an error`, { cause: result.error })] *)
Definition unwrap {T} (result : Result T JsVal) : Eff W T :=
  match result with
  | Ok value => ret value
  | Err error => throw (new_TypeError "Result is an error" error)
  end.

(** [isOk(result) ? result.value : defaultValue] *)
Definition unwrapOr {T E} (result : Result T E) (defaultValue : T) : T :=
  match result with
  | Ok value => value
  | Err _ => defaultValue
  end.

(** [isOk(result) ? result.value : defaultValue(result.error)] *)
Definition unwrapOrElse {T E} (result : Result T E)
    (defaultValue : E -> Eff W T) : Eff W T :=
  match result with
  | Ok value => ret value
  | Err error => defaultValue error
  end.

(** [isOk(result) ? ok(fn(result.value)) : err(result.error)] *)
Definition map {T U E} (result : Result T E) (fn : T -> Eff W U)
  : Eff W (Result U E) :=
  match result with
  | Ok value => u <- fn value ;; ret (ok u)
  | Err error => ret (err error)
  end.

(** [isOk(result) ? fn(result.value) : defaultValue] *)
Definition mapOr {T U E} (result : Result T E) (fn : T -> Eff W U)
    (defaultValue : U) : Eff W U :=
  match result with
  | Ok value => fn value
  | Err _ => ret defaultValue
  end.

(** [isOk(result) ? fn(result.value) : defaultValue(result.error)] *)
Definition mapOrElse {T U E} (result : Result T E) (fn : T -> Eff W U)
    (defaultValue : E -> Eff W U) : Eff W U :=
  match result with
  | Ok value => fn value
  | Err error => defaultValue error
  end.

(** [result.ok ? transform(result.value) : result].  On failure the code
    returns [result] itself; at type [Result U E] that is [Err error]. *)
Definition flatMap {T U E} (result : Result T E)
    (transform : T -> Eff W (Result U E)) : Eff W (Result U E) :=
  match result with
  | Ok value => transform value
  | Err error => ret (Err error)
  end.

(** [isErr(result) ? err(fn(result.error)) : ok(result.value)] *)
Definition mapErr {T E U} (result : Result T E) (fn : E -> Eff W U)
  : Eff W (Result T U) :=
  match result with
  | Err error => u <- fn error ;; ret (err u)
  | Ok value => ret (ok value)
  end.

(** The [for (const fn of fns)] loop of [pipe].  At the head of every
    iteration [res.ok] is true (the function has returned otherwise), so
    the loop state is the payload [res.value]:
    [res = fn(res.value); if (!res.ok) return res;] and, after the last
    step, [return res]. *)
Fixpoint pipe_loop {T E} (res_value : T) (fns : list (T -> Eff W (Result T E)))
  : Eff W (Result T E) :=
  match fns with
  | [] => ret (Ok res_value)
  | fn :: rest =>
      res <- fn res_value ;;
      match res with
      | Err error => ret (Err error)
      | Ok value => pipe_loop value rest
      end
  end.

(** The implementation of [pipe], at [Result<unknown, unknown>]:
    [let res = value; if (!res.ok) return res; for ...; return res]. *)
Definition pipe {T E} (value : Result T E) (fns : list (T -> Eff W (Result T E)))
  : Eff W (Result T E) :=
  match value with
  | Err error => ret (Err error)
  | Ok res_value => pipe_loop res_value fns
  end.

(** [isOk(result) ? result.value : undefined], with [Option<T>] being
    [T | undefined]. *)
Definition toOption {E} (result : Result JsVal E) : JsVal :=
  match result with
  | Ok value => value
  | Err _ => JsUndefined
  end.

(** [try { return ok(fn()) } catch (error) { return err(error as E) }] *)
Definition perform {T} (fn : unit -> Eff W T) : Eff W (Result T JsVal) :=
  try_catch (v <- fn tt ;; ret (ok v))
            (fun error => ret (err error)).

(** [async ... try { return ok(await fn()) }
     catch (error) { return err(error as E) }] *)
Definition performAsync {T} (fn : unit -> Eff W (Promise T))
  : Eff W (Promise (Result T JsVal)) :=
  async (try_catch (p <- fn tt ;; v <- await p ;; ret (ok v))
                   (fun error => ret (err error))).

(** [if (error != undefined) return err(error);
     return ok(value ?? undefined)] *)
Definition intoResult (value error : JsVal) : Result JsVal JsVal :=
  if loose_neq_undefined error then err error
  else ok (nullish_coalesce value JsUndefined).

End Operations.
End Res.

(* ================================================================== *)
(** ** result/combinators.ts: data-last curried forms *)

Module Combinators.
Import Res.

Section Curried.
Context {W : Type}.

Definition unwrapOr {T E} (defaultValue : T) : Result T E -> T :=
  fun result => Res.unwrapOr result defaultValue.

Definition unwrapOrElse {T E} (fn : E -> Eff W T) : Result T E -> Eff W T :=
  fun result => Res.unwrapOrElse result fn.

Definition map {T U E} (fn : T -> Eff W U)
  : Result T E -> Eff W (Result U E) :=
  fun result => Res.map result fn.

Definition mapOr {T U E} (fn : T -> Eff W U) (defaultValue : U)
  : Result T E -> Eff W U :=
  fun result => Res.mapOr result fn defaultValue.

Definition mapOrElse {T U E} (fn : T -> Eff W U) (defaultValue : E -> Eff W U)
  : Result T E -> Eff W U :=
  fun result => Res.mapOrElse result fn defaultValue.

Definition flatMap {T U E} (transform : T -> Eff W (Result U E))
  : Result T E -> Eff W (Result U E) :=
  fun result => Res.flatMap result transform.

Definition mapErr {T E U} (fn : E -> Eff W U)
  : Result T E -> Eff W (Result T U) :=
  fun result => Res.mapErr result fn.

End Curried.
End Combinators.

(* ================================================================== *)
(** ** zod.ts: bridge from a [safeParse] result *)

Module Zod.

(** [type SafeParseSuccess<T> = { success: true; data: T; error?: never }],
    [type SafeParseError<E> = { success: false; error: E; data?: never }]
    and their union [SafeParseReturnType<T, E>].  The discriminant
    [success] is the constructor; the payload is [data] or [error];
    [others] holds every other property the object has: the optional
    [error]/[data] field when it is present (it can only hold
    [undefined]) and whatever else a structurally typed value carries. *)
Inductive SafeParseReturnType (T E : Type) : Type :=
| SafeParseSuccess (data : T) (others : list (string * JsVal))
| SafeParseError (error : E) (others : list (string * JsVal)).
Arguments SafeParseSuccess {T E} data others.
Arguments SafeParseError {T E} error others.

(** The [success] field. *)
Definition success {T E} (safeParseResult : SafeParseReturnType T E) : bool :=
  match safeParseResult with
  | SafeParseSuccess _ _ => true
  | SafeParseError _ _ => false
  end.

(** [if (!safeParseResult.success) return err(safeParseResult.error);
     return ok(safeParseResult.data)].  The casts to [NonNullable] are
    erased: nothing is checked at run time. *)
Definition toResult {T E} (safeParseResult : SafeParseReturnType T E)
  : Res.Result T E :=
  match safeParseResult with
  | SafeParseError error _ => Res.err error
  | SafeParseSuccess data _ => Res.ok data
  end.

End Zod.

(* ================================================================== *)
(** ** Definitions used by the statements *)

(** The computation completes normally from every world. *)
Definition completes {W A} (c : Eff W A) : Prop :=
  forall w, exists a w', c w = (Normal a, w').

(** The iterated [flatMap] the pipe is compared with:
    [flatMap(... flatMap(flatMap(r, f1), f2) ..., fn)], a left fold of
    [flatMap] over the steps starting from [r]. *)
Definition iterated_flatMap {W T E} (r : Res.Result T E)
    (fns : list (T -> Eff W (Res.Result T E))) : Eff W (Res.Result T E) :=
  fold_left (fun acc fn => res <- acc ;; Res.flatMap res fn) fns (ret r).

(** A spy that records its position: behaves as [f] and appends [i] to
    the log of calls. *)
Definition spy_at {A B} (i : nat) (f : A -> B) : A -> Eff (list nat) B :=
  fun x log => (Normal (f x), (log ++ [i])%list).

(** The functions [fs], each spied on under its position, counted from
    [i]. *)
Fixpoint spies_from {A B} (i : nat) (fs : list (A -> B))
  : list (A -> Eff (list nat) B) :=
  match fs with
  | [] => []
  | f :: rest => spy_at i f :: spies_from (S i) rest
  end.

(** A step that cannot fail: [x => ok(g(x))]. *)
Definition ok_step {W T E} (g : T -> T) : T -> Eff W (Res.Result T E) :=
  pure_fn (fun x => Res.ok (g x)).

(** Left-to-right composition of plain functions, applied to [x]. *)
Definition apply_all {T} (gs : list (T -> T)) (x : T) : T :=
  fold_left (fun acc g => g acc) gs x.

(** The steps of the specification's pipeline.  Each is an arrow whose
    parameter is a [number]; the pipeline hands it an [unknown].  What
    JavaScript would do with an argument of another type (coercions) is
    not modelled: it is the parameter [off], and the statements hold for
    every [off]. *)
Section PipelineSteps.
Variable off : JsVal -> Res.Result JsVal JsVal.

(** [x => ok(x + 5)] *)
Definition add_five (x : JsVal) : Res.Result JsVal JsVal :=
  match x with
  | JsNum n => Res.ok (JsNum (n + 5))
  | _ => off x
  end.

(** [x => x > 10 ? ok(x * 2) : err("too small")] *)
Definition double_if_above_ten (x : JsVal) : Res.Result JsVal JsVal :=
  match x with
  | JsNum n => if n >? 10 then Res.ok (JsNum (n * 2))
               else Res.err (JsStr "too small")
  | _ => off x
  end.

(** [x => ok("result: " + x)] *)
Definition label_result (x : JsVal) : Res.Result JsVal JsVal :=
  match x with
  | JsNum n => Res.ok (JsStr ("result: " ++ number_to_string n))
  | _ => off x
  end.

Definition example_steps : list (JsVal -> Res.Result JsVal JsVal) :=
  [add_five; double_if_above_ten; label_result].

End PipelineSteps.


(* ================================================================== *)
(** ** Laws of the effect monad *)

Lemma bind_ret_l {W A B} (a : A) (k : A -> Eff W B) (w : W) :
  (x <- ret a ;; k x) w = k a w.
Proof. reflexivity. Qed.

Lemma bind_assoc {W A B C} (c : Eff W A) (k : A -> Eff W B)
    (h : B -> Eff W C) (w : W) :
  (y <- (x <- c ;; k x) ;; h y) w = (x <- c ;; y <- k x ;; h y) w.
Proof.
  unfold bind. destruct (c w) as [[a | thrown] w1]; reflexivity.
Qed.

(** [bind] only looks at its first computation through its result at the
    starting world. *)
Lemma bind_congr_l {W A B} (c c' : Eff W A) (k : A -> Eff W B) (w : W) :
  c w = c' w -> (x <- c ;; k x) w = (x <- c' ;; k x) w.
Proof. unfold bind. intros ->. reflexivity. Qed.

Lemma bind_congr_r {W A B} (c : Eff W A) (k k' : A -> Eff W B) (w : W) :
  (forall a w', k a w' = k' a w') ->
  (x <- c ;; k x) w = (x <- c ;; k' x) w.
Proof.
  intros Hk. unfold bind. destruct (c w) as [[a | thrown] w1]; auto.
Qed.

(* ================================================================== *)
(** ** The pipe loop *)

Lemma pipe_err {W T E} (e : E) (fns : list (T -> Eff W (Res.Result T E)))
    (w : W) :
  Res.pipe (Res.Err e) fns w = (Normal (Res.Err e), w).
Proof. reflexivity. Qed.

Lemma pipe_nil {W T E} (r : Res.Result T E) (w : W) :
  Res.pipe r [] w = (Normal r, w).
Proof. destruct r; reflexivity. Qed.

Lemma pipe_cons {W T E} (x : T) (fn : T -> Eff W (Res.Result T E))
    (fns : list (T -> Eff W (Res.Result T E))) (w : W) :
  Res.pipe (Res.Ok x) (fn :: fns) w = (res <- fn x ;; Res.pipe res fns) w.
Proof.
  cbn [Res.pipe Res.pipe_loop]. unfold bind.
  destruct (fn x w) as [[[value | error] | thrown] w1]; reflexivity.
Qed.

(** Running [pre ++ post] is running [pre] and handing its result to the
    pipe of [post]. *)
Lemma pipe_app {W T E} (value : Res.Result T E)
    (pre post : list (T -> Eff W (Res.Result T E))) (w : W) :
  Res.pipe value (pre ++ post) w
  = (res <- Res.pipe value pre ;; Res.pipe res post) w.
Proof.
  revert value w. induction pre as [| fn pre IH]; intros value w.
  - destruct value; reflexivity.
  - destruct value as [x | e]; [| reflexivity].
    cbn [app]. rewrite pipe_cons.
    rewrite (bind_congr_l _ _ _ w (pipe_cons x fn pre w)), bind_assoc.
    apply bind_congr_r. intros res w1. apply IH.
Qed.

(** A single step of the pipe is a [flatMap]. *)
Lemma pipe_single {W T E} (r : Res.Result T E)
    (fn : T -> Eff W (Res.Result T E)) (w : W) :
  Res.pipe r [fn] w = Res.flatMap r fn w.
Proof.
  destruct r as [x | e]; [| reflexivity].
  cbn [Res.pipe Res.pipe_loop Res.flatMap]. unfold bind.
  destruct (fn x w) as [[[value | error] | thrown] w1]; reflexivity.
Qed.

(* ================================================================== *)
(** ** The repository's tests, evaluated on the model *)

Example test_isOk_isErr :
  Res.isOk (@Res.Ok Z string 42) = true
  /\ Res.isOk (@Res.Err Z string "error") = false
  /\ Res.isErr (@Res.Err Z string "error") = true
  /\ Res.isErr (@Res.Ok Z string 42) = false.
Proof. repeat apply conj; reflexivity. Qed.

Example test_unwrapOr :
  Res.unwrapOr (@Res.Ok Z string 42) 0 = 42
  /\ Res.unwrapOr (@Res.Err Z string "error") 0 = 0.
Proof. split; reflexivity. Qed.

Example test_unwrapOrElse_computes_default :
  Combinators.unwrapOrElse (pure_fn (fun e => Z.of_nat (String.length e)))
                           (@Res.Err Z string "error") tt
  = (Normal 5, tt).
Proof. reflexivity. Qed.

Example test_map_preserves_err :
  Res.map (@Res.Err Z string "error") (pure_fn (Z.mul 2)) tt
  = (Normal (Res.Err "error"), tt).
Proof. reflexivity. Qed.

Example test_mapOrElse :
  Res.mapOrElse (@Res.Ok Z string 42) (pure_fn (Z.mul 2))
                (pure_fn (fun _ => 0)) tt = (Normal 84, tt)
  /\ Res.mapOrElse (@Res.Err Z string "error") (pure_fn (Z.mul 2))
                   (pure_fn (fun _ => 0)) tt = (Normal 0, tt).
Proof. split; reflexivity. Qed.

Example test_flatMap_resulting_err :
  Res.flatMap (@Res.Ok Z string 42)
              (pure_fn (fun _ => @Res.err Z string "error")) tt
  = (Normal (Res.Err "error"), tt).
Proof. reflexivity. Qed.

Example test_mapErr_preserves_ok :
  Res.mapErr (@Res.Ok Z string 42) (pure_fn (fun e => e ++ "!")) tt
  = (Normal (Res.Ok 42), tt).
Proof. reflexivity. Qed.

Example test_combinators_as_transformers :
  List.map (fun r => Combinators.map (pure_fn (Z.mul 2)) r tt)
           [Res.ok 1; @Res.err Z string "fail"; Res.ok 3]
  = [(Normal (Res.Ok 2), tt); (Normal (Res.Err "fail"), tt);
     (Normal (Res.Ok 6), tt)].
Proof. reflexivity. Qed.

(* ================================================================== *)
(** ** Properties of the Result operations *)

(** C1 -- Pipeline short-circuit.  Started from [err(e)], [pipe] returns
    [err(e)] and leaves the world as it found it, whatever the steps are:
    none is invoked (spies count no call).  Started from [ok(x)], it runs
    the first step on [x] and pipes that step's result through the
    remaining steps; once a prefix of the steps has produced a failure,
    that failure is the result whatever steps follow, and the world is the
    one the prefix left: the remaining steps are skipped.  On the
    specification's pipeline, [ok(10)] yields [ok("result: 30")] after
    three calls, and [ok(1)] yields [err("too small")] after two. *)
Theorem pipe_short_circuit :
  (forall (W T E : Type) (e : E) (fns : list (T -> Eff W (Res.Result T E)))
          (w : W),
      Res.pipe (Res.err e) fns w = (Normal (Res.err e), w))
  /\ (forall (T E : Type) (e : E) (fs : list (T -> Res.Result T E))
             (calls : nat),
      Res.pipe (Res.err e) (List.map spy fs) calls
      = (Normal (Res.err e), calls))
  /\ (forall (W T E : Type) (x : T) (fn : T -> Eff W (Res.Result T E))
             (fns : list (T -> Eff W (Res.Result T E))) (w : W),
      Res.pipe (Res.ok x) (fn :: fns) w
      = (res <- fn x ;; Res.pipe res fns) w)
  /\ (forall (W T E : Type) (value : Res.Result T E)
             (pre post : list (T -> Eff W (Res.Result T E)))
             (e : E) (w w' : W),
      Res.pipe value pre w = (Normal (Res.err e), w') ->
      Res.pipe value (pre ++ post) w = (Normal (Res.err e), w'))
  /\ (forall (W T E : Type) (value : Res.Result T E)
             (pre post : list (T -> Eff W (Res.Result T E)))
             (y : T) (w w' : W),
      Res.pipe value pre w = (Normal (Res.ok y), w') ->
      Res.pipe value (pre ++ post) w = Res.pipe (Res.ok y) post w')
  /\ (forall (W : Type) (off : JsVal -> Res.Result JsVal JsVal) (w : W),
      Res.pipe (Res.ok (JsNum 10)) (List.map pure_fn (example_steps off)) w
      = (Normal (Res.ok (JsStr "result: 30")), w))
  /\ (forall off : JsVal -> Res.Result JsVal JsVal,
      Res.pipe (Res.ok (JsNum 10)) (List.map spy (example_steps off)) 0%nat
      = (Normal (Res.ok (JsStr "result: 30")), 3%nat))
  /\ (forall off : JsVal -> Res.Result JsVal JsVal,
      Res.pipe (Res.ok (JsNum 1)) (List.map spy (example_steps off)) 0%nat
      = (Normal (Res.err (JsStr "too small")), 2%nat)).
Proof.
  repeat apply conj.
  - intros. apply pipe_err.
  - intros. apply pipe_err.
  - intros. apply pipe_cons.
  - intros W T E value pre post e w w' Hpre.
    rewrite pipe_app. unfold bind. rewrite Hpre. apply pipe_err.
  - intros W T E value pre post y w w' Hpre.
    rewrite pipe_app. unfold bind. rewrite Hpre. reflexivity.
  - reflexivity.
  - reflexivity.
  - reflexivity.
Qed.

(** The prefix [x => ok(x + 5)], [x => x > 10 ? ... : err("too small")]
    fails on [ok(1)] after two calls; appending the labelling step changes
    neither the failure nor the call count.  The prefix [x => ok(x + 5)]
    succeeds on [ok(10)] with 15, and the pipe goes on from there. *)
Lemma pipe_short_circuit_witness :
  let off := fun _ : JsVal => @Res.err JsVal JsVal JsUndefined in
  Res.pipe (Res.ok (JsNum 1))
           ([spy (add_five off); spy (double_if_above_ten off)]
              ++ [spy (label_result off)]) 0%nat
  = (Normal (Res.err (JsStr "too small")), 2%nat)
  /\ Res.pipe (Res.ok (JsNum 10))
              ([spy (add_five off)]
                 ++ [spy (double_if_above_ten off); spy (label_result off)])
              0%nat
     = Res.pipe (Res.ok (JsNum 15))
                [spy (double_if_above_ten off); spy (label_result off)] 1%nat.
Proof.
  intros off.
  destruct pipe_short_circuit as (_ & _ & _ & Hfail & Hgo & _).
  split.
  - apply Hfail. reflexivity.
  - apply Hgo. reflexivity.
Defined.

(** C2 -- [map(ok(x), f)] is [ok(f(x))]: [f] is called once, on [x], and
    its value is wrapped (if it throws, the exception passes through).
    [map(err(e), f)] is [err(e)] for every [f], without any effect of [f]:
    a spy counts no call, and the result does not depend on [f]. *)
Theorem map_ok_err :
  (forall (W T U E : Type) (x : T) (f : T -> U) (w : W),
      Res.map (@Res.ok T E x) (pure_fn f) w = (Normal (Res.ok (f x)), w))
  /\ (forall (W T U E : Type) (x : T) (f : T -> Eff W U) (w : W),
      Res.map (@Res.ok T E x) f w
      = match f x w with
        | (Normal u, w') => (Normal (Res.ok u), w')
        | (Throw thrown, w') => (Throw thrown, w')
        end)
  /\ (forall (T U E : Type) (x : T) (f : T -> U) (calls : nat),
      Res.map (@Res.ok T E x) (spy f) calls
      = (Normal (Res.ok (f x)), S calls))
  /\ (forall (W T U E : Type) (e : E) (f : T -> Eff W U) (w : W),
      Res.map (@Res.err T E e) f w = (Normal (Res.err e), w))
  /\ (forall (T U E : Type) (e : E) (f : T -> U) (calls : nat),
      Res.map (@Res.err T E e) (spy f) calls = (Normal (Res.err e), calls))
  /\ (forall (W T U E : Type) (e : E) (f g : T -> Eff W U) (w : W),
      Res.map (@Res.err T E e) f w = Res.map (@Res.err T E e) g w).
Proof.
  repeat apply conj; reflexivity.
Qed.

(** C3 -- [flatMap] is associative:
    [flatMap(flatMap(m, f), g)] and [flatMap(m, x => flatMap(f(x), g))]
    complete in the same way and leave the same world, for every result
    [m], all transforms [f] and [g] (effects and throws included) and
    every starting world. *)
Theorem flatMap_assoc :
  forall (W T U V E : Type) (m : Res.Result T E)
         (f : T -> Eff W (Res.Result U E)) (g : U -> Eff W (Res.Result V E))
         (w : W),
    (r <- Res.flatMap m f ;; Res.flatMap r g) w
    = Res.flatMap m (fun x => r <- f x ;; Res.flatMap r g) w.
Proof.
  intros W T U V E m f g w. destruct m as [x | e]; reflexivity.
Qed.

(* ------------------------------------------------------------------ *)
(** *** Normal completion *)

Lemma completes_ret {W A} (a : A) : completes (@ret W A a).
Proof. intros w. exists a, w. reflexivity. Qed.

Lemma completes_bind {W A B} (c : Eff W A) (k : A -> Eff W B) :
  completes c -> (forall a, completes (k a)) -> completes (x <- c ;; k x).
Proof.
  intros Hc Hk w. destruct (Hc w) as (a & w1 & Hcw).
  destruct (Hk a w1) as (b & w2 & Hkw).
  exists b, w2. unfold bind. rewrite Hcw. exact Hkw.
Qed.

Lemma completes_spy {A B} (f : A -> B) (x : A) : completes (spy f x).
Proof. intros calls. exists (f x), (S calls). reflexivity. Qed.

Lemma completes_pipe_loop {W T E} (fns : list (T -> Eff W (Res.Result T E))) :
  (forall fn x, In fn fns -> completes (fn x)) ->
  forall x, completes (Res.pipe_loop x fns).
Proof.
  induction fns as [| fn rest IH]; intros Hfns x.
  - apply completes_ret.
  - cbn [Res.pipe_loop]. apply completes_bind.
    + apply Hfns. left. reflexivity.
    + intros [value | error].
      * apply IH. intros fn' x' Hin. apply Hfns. right. exact Hin.
      * apply completes_ret.
Qed.

Lemma pipe_loop_throw_origin {W T E}
    (fns : list (T -> Eff W (Res.Result T E))) :
  forall (x : T) (thrown : JsVal) (w w' : W),
    Res.pipe_loop x fns w = (Throw thrown, w') ->
    exists pre fn post y w0,
      fns = (pre ++ fn :: post)%list
      /\ Res.pipe_loop x pre w = (Normal (Res.Ok y), w0)
      /\ fn y w0 = (Throw thrown, w').
Proof.
  induction fns as [| fn rest IH]; intros x thrown w w' Hrun.
  - discriminate Hrun.
  - cbn [Res.pipe_loop] in Hrun. unfold bind in Hrun.
    destruct (fn x w) as [[[value | error] | thrown1] w1] eqn:Hfn.
    + destruct (IH value thrown w1 w' Hrun)
        as (pre & fn' & post & y & w0 & Hsplit & Hpre & Hcall).
      exists (fn :: pre), fn', post, y, w0. repeat apply conj.
      * rewrite Hsplit. reflexivity.
      * cbn [Res.pipe_loop]. unfold bind. rewrite Hfn. exact Hpre.
      * exact Hcall.
    + discriminate Hrun.
    + injection Hrun as <- <-.
      exists [], fn, rest, x, w. repeat apply conj; auto.
Qed.

(** C4 -- [unwrap(ok(x))] returns [x].  [unwrap(err(e))] throws a
    [TypeError] with message "Result is an error" whose [cause] is exactly
    [e].  No other operation of result.ts raises an exception of its own:
    when [unwrapOrElse], [map], [mapOr], [mapOrElse], [flatMap] or
    [mapErr] ends in a throw, its callback was called in that call, on the
    payload and from the starting world, and threw that very value,
    leaving that very world; when [pipe] ends in a throw, the steps
    before some step succeeded and that step threw that value.  Hence
    with callbacks that complete normally these operations complete
    normally.  [perform] completes normally whatever its callback does,
    and [performAsync] returns a promise that is fulfilled, never
    rejected.  ([ok], [err], [isOk], [isErr], [unwrapOr], [toOption] and
    [intoResult] call nothing and contain no [throw]: they are total
    functions.) *)
Theorem unwrap_only_raises :
  (forall (W T : Type) (x : T) (w : W),
      Res.unwrap (Res.ok x) w = (Normal x, w))
  /\ (forall (W T : Type) (e : JsVal) (w : W),
      Res.unwrap (@Res.err T JsVal e) w
      = (Throw (JsError "TypeError" "Result is an error" e), w))
  /\ (forall (W T : Type) (e : JsVal) (w : W),
      match Res.unwrap (@Res.err T JsVal e) w with
      | (Throw thrown, _) => cause_of thrown = e
      | (Normal _, _) => False
      end)
  (* an exception that leaves an operation is its callback's *)
  /\ (forall (W T E : Type) (result : Res.Result T E)
             (defaultValue : E -> Eff W T) (thrown : JsVal) (w w' : W),
      Res.unwrapOrElse result defaultValue w = (Throw thrown, w') ->
      exists e, result = Res.err e /\ defaultValue e w = (Throw thrown, w'))
  /\ (forall (W T U E : Type) (result : Res.Result T E) (fn : T -> Eff W U)
             (thrown : JsVal) (w w' : W),
      Res.map result fn w = (Throw thrown, w') ->
      exists x, result = Res.ok x /\ fn x w = (Throw thrown, w'))
  /\ (forall (W T U E : Type) (result : Res.Result T E) (fn : T -> Eff W U)
             (defaultValue : U) (thrown : JsVal) (w w' : W),
      Res.mapOr result fn defaultValue w = (Throw thrown, w') ->
      exists x, result = Res.ok x /\ fn x w = (Throw thrown, w'))
  /\ (forall (W T U E : Type) (result : Res.Result T E) (fn : T -> Eff W U)
             (defaultValue : E -> Eff W U) (thrown : JsVal) (w w' : W),
      Res.mapOrElse result fn defaultValue w = (Throw thrown, w') ->
      (exists x, result = Res.ok x /\ fn x w = (Throw thrown, w'))
      \/ (exists e, result = Res.err e
                    /\ defaultValue e w = (Throw thrown, w')))
  /\ (forall (W T U E : Type) (result : Res.Result T E)
             (transform : T -> Eff W (Res.Result U E))
             (thrown : JsVal) (w w' : W),
      Res.flatMap result transform w = (Throw thrown, w') ->
      exists x, result = Res.ok x /\ transform x w = (Throw thrown, w'))
  /\ (forall (W T E U : Type) (result : Res.Result T E) (fn : E -> Eff W U)
             (thrown : JsVal) (w w' : W),
      Res.mapErr result fn w = (Throw thrown, w') ->
      exists e, result = Res.err e /\ fn e w = (Throw thrown, w'))
  /\ (forall (W T E : Type) (value : Res.Result T E)
             (fns : list (T -> Eff W (Res.Result T E)))
             (thrown : JsVal) (w w' : W),
      Res.pipe value fns w = (Throw thrown, w') ->
      exists pre fn post y w0,
        fns = (pre ++ fn :: post)%list
        /\ Res.pipe value pre w = (Normal (Res.ok y), w0)
        /\ fn y w0 = (Throw thrown, w'))
  (* so with callbacks that complete, the operations complete *)
  /\ (forall (W T E : Type) (result : Res.Result T E)
             (defaultValue : E -> Eff W T),
      (forall e, completes (defaultValue e)) ->
      completes (Res.unwrapOrElse result defaultValue))
  /\ (forall (W T U E : Type) (result : Res.Result T E) (fn : T -> Eff W U),
      (forall x, completes (fn x)) ->
      completes (Res.map result fn))
  /\ (forall (W T U E : Type) (result : Res.Result T E) (fn : T -> Eff W U)
             (defaultValue : U),
      (forall x, completes (fn x)) ->
      completes (Res.mapOr result fn defaultValue))
  /\ (forall (W T U E : Type) (result : Res.Result T E) (fn : T -> Eff W U)
             (defaultValue : E -> Eff W U),
      (forall x, completes (fn x)) ->
      (forall e, completes (defaultValue e)) ->
      completes (Res.mapOrElse result fn defaultValue))
  /\ (forall (W T U E : Type) (result : Res.Result T E)
             (transform : T -> Eff W (Res.Result U E)),
      (forall x, completes (transform x)) ->
      completes (Res.flatMap result transform))
  /\ (forall (W T E U : Type) (result : Res.Result T E) (fn : E -> Eff W U),
      (forall e, completes (fn e)) ->
      completes (Res.mapErr result fn))
  /\ (forall (W T E : Type) (value : Res.Result T E)
             (fns : list (T -> Eff W (Res.Result T E))),
      (forall fn x, In fn fns -> completes (fn x)) ->
      completes (Res.pipe value fns))
  /\ (forall (W T : Type) (fn : unit -> Eff W T),
      completes (Res.perform fn))
  /\ (forall (W T : Type) (fn : unit -> Eff W (Promise T)) (w : W),
      exists r w', Res.performAsync fn w = (Normal (Settled (Normal r)), w')).
Proof.
  repeat apply conj.
  - reflexivity.
  - reflexivity.
  - reflexivity.
  - intros W T E [value | error] defaultValue thrown w w' Hrun.
    + discriminate Hrun.
    + exists error. split; [reflexivity | exact Hrun].
  - intros W T U E [value | error] fn thrown w w' Hrun.
    + exists value. split; [reflexivity |].
      cbn [Res.map] in Hrun. unfold bind in Hrun.
      destruct (fn value w) as [[u | thrown1] w1];
        [discriminate Hrun | injection Hrun as -> ->; reflexivity].
    + discriminate Hrun.
  - intros W T U E [value | error] fn defaultValue thrown w w' Hrun.
    + exists value. split; [reflexivity | exact Hrun].
    + discriminate Hrun.
  - intros W T U E [value | error] fn defaultValue thrown w w' Hrun.
    + left. exists value. split; [reflexivity | exact Hrun].
    + right. exists error. split; [reflexivity | exact Hrun].
  - intros W T U E [value | error] transform thrown w w' Hrun.
    + exists value. split; [reflexivity | exact Hrun].
    + discriminate Hrun.
  - intros W T E U [value | error] fn thrown w w' Hrun.
    + discriminate Hrun.
    + exists error. split; [reflexivity |].
      cbn [Res.mapErr] in Hrun. unfold bind in Hrun.
      destruct (fn error w) as [[u | thrown1] w1];
        [discriminate Hrun | injection Hrun as -> ->; reflexivity].
  - intros W T E [x | e] fns thrown w w' Hrun.
    + exact (pipe_loop_throw_origin fns x thrown w w' Hrun).
    + discriminate Hrun.
  - intros W T E [value | error] defaultValue Hd; cbn [Res.unwrapOrElse].
    + apply completes_ret.
    + apply Hd.
  - intros W T U E [value | error] fn Hfn; cbn [Res.map].
    + apply completes_bind; [apply Hfn | intros u; apply completes_ret].
    + apply completes_ret.
  - intros W T U E [value | error] fn defaultValue Hfn; cbn [Res.mapOr].
    + apply Hfn.
    + apply completes_ret.
  - intros W T U E [value | error] fn defaultValue Hfn Hd; cbn [Res.mapOrElse].
    + apply Hfn.
    + apply Hd.
  - intros W T U E [value | error] transform Ht; cbn [Res.flatMap].
    + apply Ht.
    + apply completes_ret.
  - intros W T E U [value | error] fn Hfn; cbn [Res.mapErr].
    + apply completes_ret.
    + apply completes_bind; [apply Hfn | intros u; apply completes_ret].
  - intros W T E [x | e] fns Hfns; cbn [Res.pipe].
    + apply completes_pipe_loop. exact Hfns.
    + apply completes_ret.
  - intros W T fn w. unfold Res.perform, try_catch, bind.
    destruct (fn tt w) as [[v | thrown] w1].
    + exists (Res.ok v), w1. reflexivity.
    + exists (Res.err thrown), w1. reflexivity.
  - intros W T fn w. unfold Res.performAsync, async, try_catch, bind, await.
    destruct (fn tt w) as [[[[v | reason]] | thrown] w1].
    + exists (Res.ok v), w1. reflexivity.
    + exists (Res.err reason), w1. reflexivity.
    + exists (Res.err thrown), w1. reflexivity.
Qed.

(** Each callback-taking operation, first at a callback that counts its
    call and throws the string "boom" (the operation throws "boom" after
    one call, and the theorem finds the call), then at spies, which
    complete normally. *)
Lemma unwrap_only_raises_witness :
  let off := fun _ : JsVal => @Res.err JsVal JsVal JsUndefined in
  let boom (A B : Type) : A -> Eff nat B :=
    fun _ calls => (Throw (JsStr "boom"), S calls) in
  ((exists e, @Res.err Z string "error" = Res.err e
              /\ boom string Z e 0%nat = (Throw (JsStr "boom"), 1%nat))
   /\ (exists x, @Res.ok Z string 42 = Res.ok x
                 /\ boom Z Z x 0%nat = (Throw (JsStr "boom"), 1%nat))
   /\ (exists x, @Res.ok Z string 42 = Res.ok x
                 /\ boom Z Z x 0%nat = (Throw (JsStr "boom"), 1%nat))
   /\ ((exists x, @Res.err Z string "error" = Res.ok x
                  /\ spy (Z.mul 2) x 0%nat = (Throw (JsStr "boom"), 1%nat))
       \/ (exists e, @Res.err Z string "error" = Res.err e
                     /\ boom string Z e 0%nat = (Throw (JsStr "boom"), 1%nat)))
   /\ (exists x, @Res.ok Z string 42 = Res.ok x
                 /\ boom Z (Res.Result Z string) x 0%nat
                    = (Throw (JsStr "boom"), 1%nat))
   /\ (exists e, @Res.err Z string "error" = Res.err e
                 /\ boom string string e 0%nat = (Throw (JsStr "boom"), 1%nat))
   /\ (exists pre fn post y w0,
          [spy (add_five off); boom JsVal (Res.Result JsVal JsVal);
           spy (label_result off)] = (pre ++ fn :: post)%list
          /\ Res.pipe (Res.ok (JsNum 10)) pre 0%nat = (Normal (Res.ok y), w0)
          /\ fn y w0 = (Throw (JsStr "boom"), 2%nat)))
  /\ completes (Res.unwrapOrElse (@Res.err Z string "error")
                              (spy (fun e => Z.of_nat (String.length e))))
  /\ completes (Res.map (@Res.ok Z string 42) (spy (Z.mul 2)))
  /\ completes (Res.mapOr (@Res.err Z string "error") (spy (Z.mul 2)) 0)
  /\ completes (Res.mapOrElse (@Res.err Z string "error") (spy (Z.mul 2))
                              (spy (fun e => Z.of_nat (String.length e))))
  /\ completes (Res.flatMap (@Res.ok Z string 42)
                            (spy (fun x => Res.ok (x * 2))))
  /\ completes (Res.mapErr (@Res.err Z string "error")
                           (spy (fun e => e ++ "!")))
  /\ completes (Res.pipe (Res.ok (JsNum 10))
                         (List.map spy (example_steps off))).
Proof.
  intros off boom.
  destruct unwrap_only_raises
    as (_ & _ & _ & TorElse & Tmap & TmapOr & TmapOrElse & TflatMap
        & TmapErr & Tpipe & HorElse & Hmap & HmapOr & HmapOrElse & HflatMap
        & HmapErr & Hpipe & _).
  split; [repeat apply conj | repeat apply conj].
  - apply (TorElse nat Z string _ (boom string Z)). reflexivity.
  - apply (Tmap nat Z Z string _ (boom Z Z)). reflexivity.
  - apply (TmapOr nat Z Z string _ (boom Z Z) 0). reflexivity.
  - apply (TmapOrElse nat Z Z string _ (spy (Z.mul 2)) (boom string Z)).
    reflexivity.
  - apply (TflatMap nat Z Z string _ (boom Z (Res.Result Z string))).
    reflexivity.
  - apply (TmapErr nat Z string string _ (boom string string)). reflexivity.
  - apply (Tpipe nat JsVal JsVal (Res.ok (JsNum 10))). reflexivity.
  - apply HorElse. intros e. apply completes_spy.
  - apply Hmap. intros x. apply completes_spy.
  - apply HmapOr. intros x. apply completes_spy.
  - apply HmapOrElse; intros x; apply completes_spy.
  - apply HflatMap. intros x. apply completes_spy.
  - apply HmapErr. intros e. apply completes_spy.
  - apply Hpipe. intros fn x Hin. cbn in Hin.
    destruct Hin as [<- | [<- | [<- | []]]]; apply completes_spy.
Defined.

(** C5 -- [perform(fn)] is [ok] of the value [fn] returns when [fn]
    completes normally, and [err] of exactly the thrown value when [fn]
    throws, whatever that value is (a thrown string literal included);
    in both cases [perform] itself completes normally, in the world [fn]
    left. *)
Theorem perform_captures :
  (forall (W T : Type) (fn : unit -> Eff W T) (v : T) (w w' : W),
      fn tt w = (Normal v, w') ->
      Res.perform fn w = (Normal (Res.ok v), w'))
  /\ (forall (W T : Type) (fn : unit -> Eff W T) (e : JsVal) (w w' : W),
      fn tt w = (Throw e, w') ->
      Res.perform fn w = (Normal (Res.err e), w'))
  /\ (forall (W T : Type) (fn : unit -> Eff W T) (w : W),
      exists r w', Res.perform fn w = (Normal r, w'))
  /\ (forall (W T : Type) (e : JsVal) (w : W),
      Res.perform (fun _ => @throw W T e) w = (Normal (Res.err e), w))
  /\ (forall (W T : Type) (w : W),
      Res.perform (fun _ => @throw W T (JsStr "boom")) w
      = (Normal (Res.err (JsStr "boom")), w)).
Proof.
  repeat apply conj.
  - intros W T fn v w w' Hfn.
    unfold Res.perform, try_catch, bind. rewrite Hfn. reflexivity.
  - intros W T fn e w w' Hfn.
    unfold Res.perform, try_catch, bind. rewrite Hfn. reflexivity.
  - intros W T fn w. unfold Res.perform, try_catch, bind.
    destruct (fn tt w) as [[v | thrown] w1].
    + exists (Res.ok v), w1. reflexivity.
    + exists (Res.err thrown), w1. reflexivity.
  - reflexivity.
  - reflexivity.
Qed.

(** A callback that returns 42 after one call, and one that bumps the
    call counter and then throws the number 7. *)
Lemma perform_captures_witness :
  Res.perform (spy (fun _ : unit => 42)) 0%nat
  = (Normal (Res.ok 42), 1%nat)
  /\ Res.perform (fun _ : unit => _ <- spy (fun _ : unit => tt) tt ;;
                                  @throw nat Z (JsNum 7)) 0%nat
     = (Normal (Res.err (JsNum 7)), 1%nat).
Proof.
  destruct perform_captures as (Hok & Herr & _).
  split.
  - apply Hok. reflexivity.
  - apply Herr. reflexivity.
Defined.

(** C6 -- [intoResult(v, e)] is [err(e)] whenever [e] is neither [null]
    nor [undefined], whatever [v] is; otherwise it is [ok] of [v] with
    [null] collapsed to [undefined]; with both arguments absent it is
    [ok(undefined)]. *)
Theorem intoResult_policy :
  (forall v e : JsVal,
      e <> JsNull -> e <> JsUndefined ->
      Res.intoResult v e = Res.err e)
  /\ (forall v e : JsVal,
      e = JsNull \/ e = JsUndefined ->
      Res.intoResult v e
      = Res.ok (match v with JsNull => JsUndefined | _ => v end))
  /\ (forall v e : JsVal,
      e = JsNull \/ e = JsUndefined ->
      v = JsNull \/ v = JsUndefined ->
      Res.intoResult v e = Res.ok JsUndefined).
Proof.
  repeat apply conj.
  - intros v e Hnull Hundef. unfold Res.intoResult.
    destruct e; try reflexivity; congruence.
  - intros v e [-> | ->]; destruct v; reflexivity.
  - intros v e [-> | ->] [-> | ->]; reflexivity.
Qed.

(** A present error wins over a present value; a falsy value survives an
    absent error; two absent arguments give [ok(undefined)]. *)
Lemma intoResult_policy_witness :
  Res.intoResult (JsNum 1) (JsStr "bad") = Res.err (JsStr "bad")
  /\ Res.intoResult (JsNum 0) JsNull = Res.ok (JsNum 0)
  /\ Res.intoResult JsNull JsUndefined = Res.ok JsUndefined.
Proof.
  destruct intoResult_policy as (Herr & Hok & Hboth).
  repeat apply conj.
  - apply Herr; discriminate.
  - apply (Hok (JsNum 0)). left. reflexivity.
  - apply Hboth; [right | left]; reflexivity.
Defined.

(** C7 -- Each curried, data-last combinator applied to its arguments and
    then to the subject is the data-first operation applied to the
    subject and those arguments: [unwrapOr], [unwrapOrElse], [map],
    [mapOr], [mapOrElse], [flatMap], [mapErr]. *)
Theorem curried_equivalence :
  (forall (T E : Type) (defaultValue : T) (result : Res.Result T E),
      Combinators.unwrapOr defaultValue result
      = Res.unwrapOr result defaultValue)
  /\ (forall (W T E : Type) (fn : E -> Eff W T) (result : Res.Result T E),
      Combinators.unwrapOrElse fn result = Res.unwrapOrElse result fn)
  /\ (forall (W T U E : Type) (fn : T -> Eff W U) (result : Res.Result T E),
      Combinators.map fn result = Res.map result fn)
  /\ (forall (W T U E : Type) (fn : T -> Eff W U) (defaultValue : U)
             (result : Res.Result T E),
      Combinators.mapOr fn defaultValue result
      = Res.mapOr result fn defaultValue)
  /\ (forall (W T U E : Type) (fn : T -> Eff W U)
             (defaultValue : E -> Eff W U) (result : Res.Result T E),
      Combinators.mapOrElse fn defaultValue result
      = Res.mapOrElse result fn defaultValue)
  /\ (forall (W T U E : Type) (transform : T -> Eff W (Res.Result U E))
             (result : Res.Result T E),
      Combinators.flatMap transform result = Res.flatMap result transform)
  /\ (forall (W T E U : Type) (fn : E -> Eff W U) (result : Res.Result T E),
      Combinators.mapErr fn result = Res.mapErr result fn).
Proof.
  repeat apply conj; reflexivity.
Qed.

(** C8 -- [toOption(ok(x))] is [x] and [toOption(err(e))] is
    [undefined]: the error payload is discarded, so every failure, and the
    success carrying [undefined], project to the same option. *)
Theorem toOption_projection :
  (forall (E : Type) (x : JsVal), Res.toOption (@Res.ok JsVal E x) = x)
  /\ (forall (E : Type) (e : E),
      Res.toOption (@Res.err JsVal E e) = JsUndefined)
  /\ (forall (E : Type) (e e' : E),
      Res.toOption (@Res.err JsVal E e) = Res.toOption (@Res.err JsVal E e'))
  /\ (forall (E : Type) (e : E),
      Res.toOption (@Res.err JsVal E e)
      = Res.toOption (@Res.ok JsVal E JsUndefined)).
Proof.
  repeat apply conj; reflexivity.
Qed.

(** C9 -- [Option.from(null)] is [undefined], and [Option.from(x)] is [x]
    for every [x] other than [null]: falsy values such as [0], [false]
    and the empty string, and objects holding [null] as data, come back
    unchanged. *)
Theorem from_normalizes_null :
  Option.from JsNull = JsUndefined
  /\ (forall x : JsVal, x <> JsNull -> Option.from x = x)
  /\ Option.from (JsNum 0) = JsNum 0
  /\ Option.from (JsBool false) = JsBool false
  /\ Option.from (JsStr EmptyString) = JsStr EmptyString
  /\ Option.from (JsObj [("a", JsNull)]) = JsObj [("a", JsNull)].
Proof.
  repeat apply conj; try reflexivity.
  intros x Hx. destruct x; try reflexivity. congruence.
Qed.

Lemma from_normalizes_null_witness :
  Option.from JsUndefined = JsUndefined
  /\ Option.from (JsNum 42) = JsNum 42.
Proof.
  destruct from_normalizes_null as (_ & Hid & _).
  split; apply Hid; discriminate.
Defined.

(** C10 -- [pipe(r, f1, ..., fn)] completes as the iterated [flatMap]
    [flatMap(... flatMap(flatMap(r, f1), f2) ..., fn)] does, from every
    world; with no step, [pipe(r)] is [r]. *)
Theorem pipe_is_iterated_flatMap :
  (forall (W T E : Type) (r : Res.Result T E)
          (fns : list (T -> Eff W (Res.Result T E))) (w : W),
      Res.pipe r fns w = iterated_flatMap r fns w)
  /\ (forall (W T E : Type) (r : Res.Result T E) (w : W),
      Res.pipe r [] w = (Normal r, w)).
Proof.
  split.
  - intros W T E r fns. induction fns as [| fn fns IH] using rev_ind; intros w.
    + apply pipe_nil.
    + unfold iterated_flatMap. rewrite fold_left_app. cbn [fold_left].
      fold (iterated_flatMap r fns).
      rewrite pipe_app.
      rewrite (bind_congr_l _ _ _ w (IH w)).
      apply bind_congr_r. intros res w1. apply pipe_single.
  - intros. apply pipe_nil.
Qed.

(* ================================================================== *)
(** ** Further properties of result.ts *)

(** Unfold the operations and the monad, then split on what each callback
    does at the world it is run from. *)
Ltac run_eff :=
  cbv [Res.map Res.mapErr Res.mapOr Res.mapOrElse Res.unwrapOrElse
       Res.flatMap Res.unwrapOr Res.ok Res.err bind ret pure_fn];
  repeat match goal with
         | |- context [match ?f ?x ?w with _ => _ end] =>
             destruct (f x w) as [[? | ?] ?]
         end;
  try reflexivity.

(** X1 -- [isOk] and [isErr] are complementary: every result satisfies
    exactly one of them. *)
Theorem isOk_isErr_complement :
  forall (T E : Type) (result : Res.Result T E),
    Res.isErr result = negb (Res.isOk result).
Proof. intros T E [value | error]; reflexivity. Qed.

(** X2 -- [map] is a functor on the success side: mapping the identity
    gives the result back, and mapping [f] and then [g] is mapping
    [x => g(f(x))], effects and throws of [f] and [g] included. *)
Theorem map_functor_laws :
  (forall (W T E : Type) (result : Res.Result T E) (w : W),
      Res.map result (pure_fn (fun x => x)) w = (Normal result, w))
  /\ (forall (W T U V E : Type) (result : Res.Result T E)
             (f : T -> Eff W U) (g : U -> Eff W V) (w : W),
      (mapped <- Res.map result f ;; Res.map mapped g) w
      = Res.map result (fun x => y <- f x ;; g y) w).
Proof.
  split.
  - intros W T E [value | error] w; reflexivity.
  - intros W T U V E [value | error] f g w; run_eff.
Qed.

(** X3 -- [mapErr] is a functor on the failure side: mapping the identity
    gives the result back, and mapping [f] and then [g] is mapping
    [e => g(f(e))]. *)
Theorem mapErr_functor_laws :
  (forall (W T E : Type) (result : Res.Result T E) (w : W),
      Res.mapErr result (pure_fn (fun e => e)) w = (Normal result, w))
  /\ (forall (W T E F G : Type) (result : Res.Result T E)
             (f : E -> Eff W F) (g : F -> Eff W G) (w : W),
      (mapped <- Res.mapErr result f ;; Res.mapErr mapped g) w
      = Res.mapErr result (fun e => y <- f e ;; g y) w).
Proof.
  split.
  - intros W T E [value | error] w; reflexivity.
  - intros W T E F G [value | error] f g w; run_eff.
Qed.

(** X4 -- [map] and [mapErr] commute: whichever is applied first, the
    same single callback runs and the same result comes out. *)
Theorem map_mapErr_commute :
  forall (W T U E F : Type) (result : Res.Result T E)
         (f : T -> Eff W U) (g : E -> Eff W F) (w : W),
    (mapped <- Res.map result f ;; Res.mapErr mapped g) w
    = (mapped <- Res.mapErr result g ;; Res.map mapped f) w.
Proof.
  intros W T U E F [value | error] f g w; run_eff.
Qed.

(** X5 -- [ok] is a unit for [flatMap] on both sides, and [map] is the
    [flatMap] whose transform wraps its value in [ok]. *)
Theorem flatMap_unit_laws :
  (forall (W T U E : Type) (x : T) (f : T -> Eff W (Res.Result U E)) (w : W),
      Res.flatMap (Res.ok x) f w = f x w)
  /\ (forall (W T E : Type) (result : Res.Result T E) (w : W),
      Res.flatMap result (pure_fn Res.ok) w = (Normal result, w))
  /\ (forall (W T U E : Type) (result : Res.Result T E) (fn : T -> Eff W U)
             (w : W),
      Res.map result fn w
      = Res.flatMap result (fun x => u <- fn x ;; ret (Res.ok u)) w).
Proof.
  repeat apply conj.
  - reflexivity.
  - intros W T E [value | error] w; reflexivity.
  - intros W T U E [value | error] fn w; reflexivity.
Qed.

(** X6 -- [mapOr] is [map] followed by [unwrapOr], and [mapOrElse] is
    [map] followed by [unwrapOrElse]. *)
Theorem mapOr_is_map_then_unwrap :
  (forall (W T U E : Type) (result : Res.Result T E) (fn : T -> Eff W U)
          (defaultValue : U) (w : W),
      (mapped <- Res.map result fn ;; ret (Res.unwrapOr mapped defaultValue)) w
      = Res.mapOr result fn defaultValue w)
  /\ (forall (W T U E : Type) (result : Res.Result T E) (fn : T -> Eff W U)
             (defaultValue : E -> Eff W U) (w : W),
      (mapped <- Res.map result fn ;; Res.unwrapOrElse mapped defaultValue) w
      = Res.mapOrElse result fn defaultValue w).
Proof.
  split.
  - intros W T U E [value | error] fn defaultValue w; run_eff.
  - intros W T U E [value | error] fn defaultValue w; run_eff.
Qed.

(** X7 -- The plain-default forms are the computed-default forms at a
    constant function: [unwrapOrElse(r, _ => d)] is [unwrapOr(r, d)] and
    [mapOrElse(r, fn, _ => d)] is [mapOr(r, fn, d)]. *)
Theorem constant_default :
  (forall (W T E : Type) (result : Res.Result T E) (d : T) (w : W),
      Res.unwrapOrElse result (pure_fn (fun _ => d)) w
      = (Normal (Res.unwrapOr result d), w))
  /\ (forall (W T U E : Type) (result : Res.Result T E) (fn : T -> Eff W U)
             (d : U) (w : W),
      Res.mapOrElse result fn (pure_fn (fun _ => d)) w
      = Res.mapOr result fn d w).
Proof.
  split.
  - intros W T E [value | error] d w; reflexivity.
  - intros W T U E [value | error] fn d w; reflexivity.
Qed.

(** X8 -- How often the callbacks run.  [mapOrElse] calls exactly one of
    its two callbacks, once.  [map] calls [fn] once on a success and never
    on a failure; [mapErr] and [unwrapOrElse] call theirs once on a
    failure and never on a success. *)
Theorem callback_call_counts :
  (forall (T U E : Type) (result : Res.Result T E) (fn : T -> U)
          (defaultValue : E -> U) (calls : nat),
      snd (Res.mapOrElse result (spy fn) (spy defaultValue) calls) = S calls)
  /\ (forall (T U E : Type) (result : Res.Result T E) (fn : T -> U)
             (calls : nat),
      snd (Res.map result (spy fn) calls)
      = if Res.isOk result then S calls else calls)
  /\ (forall (T E U : Type) (result : Res.Result T E) (fn : E -> U)
             (calls : nat),
      snd (Res.mapErr result (spy fn) calls)
      = if Res.isOk result then calls else S calls)
  /\ (forall (T E : Type) (result : Res.Result T E) (defaultValue : E -> T)
             (calls : nat),
      snd (Res.unwrapOrElse result (spy defaultValue) calls)
      = if Res.isOk result then calls else S calls).
Proof.
  repeat apply conj.
  - intros T U E [value | error] fn defaultValue calls; reflexivity.
  - intros T U E [value | error] fn calls; reflexivity.
  - intros T E U [value | error] fn calls; reflexivity.
  - intros T E [value | error] defaultValue calls; reflexivity.
Qed.

(** X9 -- [toOption] is [unwrapOr] with [undefined] as the default, and
    it does not see what [mapErr] does to the error. *)
Theorem toOption_is_unwrapOr_undefined :
  (forall (E : Type) (result : Res.Result JsVal E),
      Res.toOption result = Res.unwrapOr result JsUndefined)
  /\ (forall (W E F : Type) (result : Res.Result JsVal E) (g : E -> F)
             (w : W),
      (mapped <- Res.mapErr result (pure_fn g) ;; ret (Res.toOption mapped)) w
      = (Normal (Res.toOption result), w)).
Proof.
  split.
  - intros E [value | error]; reflexivity.
  - intros W E F [value | error] g w; reflexivity.
Qed.

(** X10 -- [unwrap] after [perform]: the value of [fn] comes back when
    [fn] returns, and when [fn] throws [e] the pair throws a [TypeError]
    whose cause is [e]; in both cases the world is the one [fn] left. *)
Theorem unwrap_after_perform :
  forall (W T : Type) (fn : unit -> Eff W T) (w : W),
    (result <- Res.perform fn ;; Res.unwrap result) w
    = match fn tt w with
      | (Normal v, w') => (Normal v, w')
      | (Throw e, w') => (Throw (new_TypeError "Result is an error" e), w')
      end.
Proof.
  intros W T fn w. unfold Res.perform, try_catch, bind.
  destruct (fn tt w) as [[v | e] w1]; reflexivity.
Qed.

(** X11 -- [perform] around [unwrap]: a success comes back as it was, and
    a failure [err(e)] comes back as a failure holding the [TypeError]
    whose cause is [e]; nothing is thrown. *)
Theorem perform_around_unwrap :
  forall (W T : Type) (result : Res.Result T JsVal) (w : W),
    Res.perform (fun _ => Res.unwrap result) w
    = (Normal (match result with
               | Res.Ok value => Res.Ok value
               | Res.Err error =>
                   Res.Err (new_TypeError "Result is an error" error)
               end), w)
    /\ (forall e, result = Res.Err e ->
        exists thrown,
          Res.perform (fun _ => @Res.unwrap W T result) w
          = (Normal (Res.Err thrown), w)
          /\ cause_of thrown = e).
Proof.
  intros W T [value | error] w; split; try reflexivity.
  - intros e He. discriminate He.
  - intros e He. injection He as <-.
    exists (new_TypeError "Result is an error" error). split; reflexivity.
Qed.

Lemma perform_around_unwrap_witness :
  exists thrown,
    Res.perform (fun _ => @Res.unwrap unit Z (Res.Err (JsStr "bad"))) tt
    = (Normal (Res.Err thrown), tt)
    /\ cause_of thrown = JsStr "bad".
Proof.
  apply (proj2 (perform_around_unwrap unit Z (Res.Err (JsStr "bad")) tt)
               (JsStr "bad")).
  reflexivity.
Defined.

(** X12 -- [performAsync(fn)] is [perform] of "call [fn], then await what
    it returned", handed back in a fulfilled promise: a synchronous throw
    of [fn] and a rejection of its promise both end as [err]. *)
Theorem performAsync_is_perform_of_await :
  forall (W T : Type) (fn : unit -> Eff W (Promise T)) (w : W),
    Res.performAsync fn w
    = (result <- Res.perform (fun _ => p <- fn tt ;; await p) ;;
       ret (Settled (Normal result))) w.
Proof.
  intros W T fn w.
  unfold Res.performAsync, Res.perform, async, try_catch, bind, await.
  destruct (fn tt w) as [[[[v | reason]] | thrown] w1]; reflexivity.
Qed.

(** X13 -- Pipes compose: running the steps [pre ++ post] is running
    [pre] and piping its result through [post]. *)
Theorem pipe_composes :
  forall (W T E : Type) (value : Res.Result T E)
         (pre post : list (T -> Eff W (Res.Result T E))) (w : W),
    Res.pipe value (pre ++ post) w
    = (res <- Res.pipe value pre ;; Res.pipe res post) w.
Proof. intros. apply pipe_app. Qed.

(** X14 -- A pipe of steps that cannot fail, [x => ok(g(x))], is the
    left-to-right composition of the functions [g], wrapped in [ok]. *)
Theorem pipe_of_ok_steps :
  forall (W T E : Type) (gs : list (T -> T)) (x : T) (w : W),
    Res.pipe (@Res.ok T E x) (List.map ok_step gs) w
    = (Normal (Res.ok (apply_all gs x)), w).
Proof.
  intros W T E gs. induction gs as [| g gs IH]; intros x w.
  - reflexivity.
  - cbn [List.map]. rewrite pipe_cons. unfold bind, ok_step at 1, pure_fn, ret.
    apply IH.
Qed.

Lemma pipe_loop_call_log {T E} (fs : list (T -> Res.Result T E)) :
  forall (i : nat) (x : T) (log : list nat),
  exists res k,
    Res.pipe_loop x (spies_from i fs) log = (Normal res, (log ++ seq i k)%list)
    /\ (k <= length fs)%nat
    /\ (Res.isOk res = true -> k = length fs).
Proof.
  induction fs as [| f fs IH]; intros i x log.
  - exists (Res.Ok x), 0%nat. cbn. rewrite app_nil_r. auto.
  - cbn [spies_from Res.pipe_loop length]. unfold bind, spy_at at 1.
    destruct (f x) as [value | error].
    + destruct (IH (S i) value (log ++ [i])%list) as (res & k & Heq & Hk & Hok).
      exists res, (S k). rewrite Heq, <- app_assoc. cbn [seq app].
      split; [reflexivity |]. split; [lia |].
      intros Hres. rewrite (Hok Hres). reflexivity.
    + exists (Res.Err error), 1%nat. cbn.
      split; [reflexivity |]. split; [lia | discriminate].
Qed.

(** X15 -- Which steps a pipe calls.  Every step spied on under its
    position, the calls a pipe makes are to the steps 0, 1, ..., k-1, in
    that order and once each; k is the number of steps when the pipe ends
    in a success, and 0 when it starts from a failure. *)
Theorem pipe_calls_steps_in_order :
  forall (T E : Type) (value : Res.Result T E)
         (fs : list (T -> Res.Result T E)) (log : list nat),
  exists res k,
    Res.pipe value (spies_from 0 fs) log = (Normal res, (log ++ seq 0 k)%list)
    /\ (k <= length fs)%nat
    /\ (Res.isOk res = true -> k = length fs)
    /\ (Res.isOk value = false -> k = 0%nat).
Proof.
  intros T E [x | e] fs log.
  - destruct (pipe_loop_call_log fs 0%nat x log) as (res & k & Heq & Hk & Hok).
    exists res, k. cbn [Res.pipe].
    split; [exact Heq | split; [exact Hk | split; [exact Hok |]]].
    cbn. discriminate.
  - exists (Res.Err e), 0%nat. cbn. rewrite app_nil_r.
    split; [reflexivity | split; [lia | split]].
    + discriminate.
    + reflexivity.
Qed.

(** The specification's pipeline from [ok(10)] ends in a success, so its
    three steps are called in order, once each. *)
Lemma pipe_calls_steps_in_order_witness :
  exists res k,
    Res.pipe (Res.ok (JsNum 10))
             (spies_from 0 (example_steps (fun _ => Res.err JsUndefined)))
             []
    = (Normal res, ([] ++ seq 0 k)%list)
    /\ k = 3%nat.
Proof.
  destruct (pipe_calls_steps_in_order JsVal JsVal (Res.ok (JsNum 10))
              (example_steps (fun _ => Res.err JsUndefined)) [])
    as (res & k & Heq & _ & Hok & _).
  exists res, k. split; [exact Heq |].
  apply Hok. vm_compute in Heq.
  destruct res as [value | error]; [reflexivity |].
  destruct k; discriminate Heq.
Defined.

Lemma pipe_loop_failure_origin {W T E}
    (fns : list (T -> Eff W (Res.Result T E))) :
  forall (x : T) (e : E) (w w' : W),
    Res.pipe_loop x fns w = (Normal (Res.Err e), w') ->
    exists fn y w0,
      In fn fns /\ fn y w0 = (Normal (Res.Err e), w').
Proof.
  induction fns as [| fn rest IH]; intros x e w w' Hrun.
  - discriminate Hrun.
  - cbn [Res.pipe_loop] in Hrun. unfold bind in Hrun.
    destruct (fn x w) as [[[value | error] | thrown] w1] eqn:Hfn.
    + destruct (IH value e w1 w' Hrun) as (fn' & y & w0 & Hin & Hcall).
      exists fn', y, w0. split; [right; exact Hin | exact Hcall].
    + injection Hrun as <- <-.
      exists fn, x, w. split; [left; reflexivity | exact Hfn].
    + discriminate Hrun.
Qed.

(** X16 -- A pipe makes up no failure: when it ends in [err(e)], either
    it was started from [err(e)] (and the world is untouched), or one of
    its steps returned [err(e)] and left the final world. *)
Theorem pipe_failure_origin :
  forall (W T E : Type) (value : Res.Result T E)
         (fns : list (T -> Eff W (Res.Result T E))) (e : E) (w w' : W),
    Res.pipe value fns w = (Normal (Res.err e), w') ->
    (value = Res.err e /\ w' = w)
    \/ (exists fn y w0, In fn fns /\ fn y w0 = (Normal (Res.err e), w')).
Proof.
  intros W T E [x | e0] fns e w w' Hrun.
  - right. exact (pipe_loop_failure_origin fns x e w w' Hrun).
  - left. cbn in Hrun. injection Hrun as <- <-. split; reflexivity.
Qed.

Lemma pipe_failure_origin_witness :
  let off := fun _ : JsVal => @Res.err JsVal JsVal JsUndefined in
  (@Res.ok JsVal JsVal (JsNum 1) = Res.err (JsStr "too small")
   /\ 2%nat = 0%nat)
  \/ (exists fn y w0,
         In fn (List.map spy (example_steps off))
         /\ fn y w0 = (Normal (Res.err (JsStr "too small")), 2%nat)).
Proof.
  intros off.
  apply (pipe_failure_origin nat JsVal JsVal (Res.ok (JsNum 1))
           (List.map spy (example_steps off)) (JsStr "too small") 0%nat 2%nat).
  reflexivity.
Defined.

(** X17 -- A step that throws ends the pipe: when the steps before it
    have succeeded with [y] and the step throws on [y], the pipe throws
    the same value from the world the step left, whatever steps follow;
    [perform] around the pipe turns that into a failure. *)
Theorem pipe_throw_propagates :
  forall (W T E : Type) (value : Res.Result T E)
         (pre post : list (T -> Eff W (Res.Result T E)))
         (fn : T -> Eff W (Res.Result T E))
         (y : T) (thrown : JsVal) (w w1 w2 : W),
    Res.pipe value pre w = (Normal (Res.ok y), w1) ->
    fn y w1 = (Throw thrown, w2) ->
    Res.pipe value (pre ++ fn :: post) w = (Throw thrown, w2)
    /\ Res.perform (fun _ => Res.pipe value (pre ++ fn :: post)) w
       = (Normal (Res.err thrown), w2).
Proof.
  intros W T E value pre post fn y thrown w w1 w2 Hpre Hfn.
  assert (Hrun : Res.pipe value (pre ++ fn :: post) w = (Throw thrown, w2)).
  { rewrite pipe_app. unfold bind at 1. rewrite Hpre.
    rewrite pipe_cons. unfold bind. rewrite Hfn. reflexivity. }
  split; [exact Hrun |].
  unfold Res.perform, try_catch, bind. rewrite Hrun. reflexivity.
Qed.

(** After one successful step on [ok(10)], a step that counts its call
    and throws the string "boom"; the last step is never reached. *)
Lemma pipe_throw_propagates_witness :
  let off := fun _ : JsVal => @Res.err JsVal JsVal JsUndefined in
  let boom : JsVal -> Eff nat (Res.Result JsVal JsVal) :=
    fun _ calls => (Throw (JsStr "boom"), S calls) in
  Res.pipe (Res.ok (JsNum 10))
           ([spy (add_five off)] ++ boom :: [spy (label_result off)]) 0%nat
  = (Throw (JsStr "boom"), 2%nat)
  /\ Res.perform
       (fun _ => Res.pipe (Res.ok (JsNum 10))
                  ([spy (add_five off)] ++ boom :: [spy (label_result off)]))
       0%nat
     = (Normal (Res.err (JsStr "boom")), 2%nat).
Proof.
  intros off boom.
  apply (pipe_throw_propagates nat JsVal JsVal (Res.ok (JsNum 10))
           [spy (add_five off)] [spy (label_result off)] boom
           (JsNum 15) (JsStr "boom") 0%nat 1%nat 2%nat); reflexivity.
Defined.

(** X18 -- What the transformations do to the discriminant.  When the
    callback returns on the payload it is given, [map] and [mapErr]
    return, and their result is a success exactly when their input is.
    When the transform returns, [flatMap] returns, and its result is a
    success only if its input is: it can turn a success into a failure,
    never a failure into a success. *)
Theorem discriminant_kept :
  (forall (W T U E : Type) (result : Res.Result T E) (fn : T -> Eff W U)
          (w : W),
      (forall x, result = Res.ok x -> exists u w1, fn x w = (Normal u, w1)) ->
      exists mapped w',
        Res.map result fn w = (Normal mapped, w')
        /\ Res.isOk mapped = Res.isOk result)
  /\ (forall (W T E F : Type) (result : Res.Result T E) (fn : E -> Eff W F)
             (w : W),
      (forall e, result = Res.err e -> exists u w1, fn e w = (Normal u, w1)) ->
      exists mapped w',
        Res.mapErr result fn w = (Normal mapped, w')
        /\ Res.isOk mapped = Res.isOk result)
  /\ (forall (W T U E : Type) (result : Res.Result T E)
             (transform : T -> Eff W (Res.Result U E)) (w : W),
      (forall x, result = Res.ok x ->
                 exists r w1, transform x w = (Normal r, w1)) ->
      exists mapped w',
        Res.flatMap result transform w = (Normal mapped, w')
        /\ (Res.isOk mapped = true -> Res.isOk result = true)).
Proof.
  repeat apply conj.
  - intros W T U E [value | error] fn w Hfn.
    + destruct (Hfn value eq_refl) as (u & w1 & Hcall).
      exists (Res.ok u), w1. cbn [Res.map]. unfold bind. rewrite Hcall.
      split; reflexivity.
    + exists (Res.err error), w. split; reflexivity.
  - intros W T E F [value | error] fn w Hfn.
    + exists (Res.ok value), w. split; reflexivity.
    + destruct (Hfn error eq_refl) as (u & w1 & Hcall).
      exists (Res.err u), w1. cbn [Res.mapErr]. unfold bind. rewrite Hcall.
      split; reflexivity.
  - intros W T U E [value | error] transform w Ht.
    + destruct (Ht value eq_refl) as (r & w1 & Hcall).
      exists r, w1. split; [exact Hcall | reflexivity].
    + exists (Res.Err error), w. split; [reflexivity | discriminate].
Qed.

(** [map] on a success, [mapErr] on a failure and [flatMap] on a
    success, each with a spy that is called once. *)
Lemma discriminant_kept_witness :
  (exists mapped w',
      Res.map (@Res.ok Z string 42) (spy (Z.mul 2)) 0%nat = (Normal mapped, w')
      /\ Res.isOk mapped = Res.isOk (@Res.ok Z string 42))
  /\ (exists mapped w',
      Res.mapErr (@Res.err Z string "error") (spy (fun e => e ++ "!")) 0%nat
      = (Normal mapped, w')
      /\ Res.isOk mapped = Res.isOk (@Res.err Z string "error"))
  /\ (exists mapped w',
      Res.flatMap (@Res.ok Z string 42)
                  (spy (fun _ => @Res.err Z string "no")) 0%nat
      = (Normal mapped, w')
      /\ (Res.isOk mapped = true -> Res.isOk (@Res.ok Z string 42) = true)).
Proof.
  destruct discriminant_kept as (Hmap & HmapErr & HflatMap).
  repeat apply conj.
  - apply Hmap. intros x _. eexists. eexists. reflexivity.
  - apply HmapErr. intros e _. eexists. eexists. reflexivity.
  - apply HflatMap. intros x _. eexists. eexists. reflexivity.
Defined.

(** X19 -- What [intoResult] can return.  A success never carries
    [null], and comes only from an absent error; a failure carries the
    error that was passed, and that error is neither [null] nor
    [undefined]. *)
Theorem intoResult_payloads :
  (forall v e x : JsVal,
      Res.intoResult v e = Res.Ok x ->
      x <> JsNull /\ (e = JsNull \/ e = JsUndefined))
  /\ (forall v e x : JsVal,
      Res.intoResult v e = Res.Err x ->
      x = e /\ x <> JsNull /\ x <> JsUndefined).
Proof.
  split; intros v e x H; unfold Res.intoResult in H.
  - destruct e; cbn in H; try discriminate H;
      (split; [| auto]); destruct v; cbn in H;
      injection H as <-; discriminate.
  - destruct e; cbn in H; try discriminate H;
      injection H as <-; repeat split; discriminate.
Qed.

Lemma intoResult_payloads_witness :
  (JsUndefined <> JsNull /\ (JsNull = JsNull \/ JsNull = JsUndefined))
  /\ (JsNum 0 = JsNum 0 /\ JsNum 0 <> JsNull /\ JsNum 0 <> JsUndefined).
Proof.
  destruct intoResult_payloads as (Hok & Herr).
  split.
  - apply (Hok JsNull JsNull JsUndefined). reflexivity.
  - apply (Herr (JsStr "data") (JsNum 0) (JsNum 0)). reflexivity.
Defined.

(** X21 -- [unwrapOrElse] after [mapErr(g)] is [unwrapOrElse] with the
    default computed from [g(e)]: on a success neither [g] nor the
    default runs. *)
Theorem unwrapOrElse_after_mapErr :
  forall (W T E F : Type) (result : Res.Result T E)
         (g : E -> Eff W F) (defaultValue : F -> Eff W T) (w : W),
    (mapped <- Res.mapErr result g ;; Res.unwrapOrElse mapped defaultValue) w
    = Res.unwrapOrElse result (fun e => u <- g e ;; defaultValue u) w.
Proof.
  intros W T E F [value | error] g defaultValue w; run_eff.
Qed.

(** X22 -- [perform] around [perform] is always a success: the inner
    call has already turned a throw of [fn] into a failure value, which
    the outer call wraps in [ok]. *)
Theorem perform_of_perform :
  forall (W T : Type) (fn : unit -> Eff W T) (w : W),
  exists inner w',
    Res.perform fn w = (Normal inner, w')
    /\ Res.perform (fun _ => Res.perform fn) w = (Normal (Res.ok inner), w').
Proof.
  intros W T fn w. unfold Res.perform, try_catch, bind.
  destruct (fn tt w) as [[v | thrown] w1].
  - exists (Res.ok v), w1. split; reflexivity.
  - exists (Res.err thrown), w1. split; reflexivity.
Qed.

(* ================================================================== *)
(** ** Properties of zod.ts *)

